(** * A shallow embedding of the credential cache of auth0-spa-js

    This development models [src/src/cache.ts] ([CacheKey], [CacheManager],
    [findExistingCacheKey], [LocalStorageCache], [InMemoryCache]) and the
    token request builder [oauthToken] of [src/src/api.ts].

    JavaScript values are modelled as follows.
    - A possibly-[undefined] string is an [option string]; [None] is
      [undefined].  Template literals print [undefined] as ["undefined"].
    - Numbers (epoch seconds and milliseconds) are integers [Z]; [Math.floor]
      of a division is [Z.div].
    - An exception thrown by the code is the [Throw] branch of [js_result].
    - The browser's [localStorage] is an ordered association list from key
      strings to stored strings: the order is the order in which
      [Object.keys] and [localStorage.key(i)] enumerate the keys. *)

From Stdlib Require Import String Ascii List Bool ZArith Lia.
Import ListNotations.
Open Scope string_scope.

(** ** JavaScript results *)

Inductive js_error := TypeError | SyntaxError.

Inductive js_result (A : Type) : Type :=
| Ok (a : A)
| Throw (e : js_error).
Arguments Ok {A} a.
Arguments Throw {A} e.

Definition js_bind {A B} (r : js_result A) (f : A -> js_result B) : js_result B :=
  match r with
  | Ok a => f a
  | Throw e => Throw e
  end.

Notation "x <- r ;; k" := (js_bind r (fun x => k))
  (at level 61, r at next level, right associativity).

(** Truthiness of a possibly-undefined string: [undefined] and [""] are falsy. *)
Definition truthy_str (s : option string) : bool :=
  match s with
  | Some (String _ _) => true
  | _ => false
  end.

(** Strict equality [===] between possibly-undefined strings. *)
Definition str_eq (a b : option string) : bool :=
  match a, b with
  | None, None => true
  | Some x, Some y => String.eqb x y
  | _, _ => false
  end.

(** The text a template literal prints for a possibly-undefined string. *)
Definition show_str (s : option string) : string :=
  match s with
  | Some x => x
  | None => "undefined"
  end.

(** ** [String.prototype.split] *)

Definition colon : ascii := ":"%char.
Definition space : ascii := " "%char.

Definition cons_head (c : ascii) (l : list string) : list string :=
  match l with
  | x :: xs => String c x :: xs
  | [] => [String c EmptyString]
  end.

(** [s.split(' ')]: split on a one-character separator. *)
Fixpoint split_char (d : ascii) (s : string) : list string :=
  match s with
  | EmptyString => [EmptyString]
  | String c rest =>
      if Ascii.eqb c d then EmptyString :: split_char d rest
      else cons_head c (split_char d rest)
  end.

(** [s.split('::')]: the scan goes left to right; at each position where
    ["::"] starts, a piece ends and the scan resumes after the two colons. *)
Fixpoint split_dc (s : string) : list string :=
  match s with
  | EmptyString => [EmptyString]
  | String c rest =>
      match rest with
      | EmptyString => [String c EmptyString]
      | String c' rest' =>
          if Ascii.eqb c colon && Ascii.eqb c' colon
          then EmptyString :: split_dc rest'
          else cons_head c (split_dc rest)
      end
  end.

(** [arr.includes(x)] on an array of strings. *)
Definition includes (x : string) (arr : list string) : bool :=
  existsb (String.eqb x) arr.

(** [String.prototype.startsWith]. *)
Definition startsWith (p s : string) : bool := String.prefix p s.

(** ** [CacheKey] *)

Definition keyPrefix : string := "@@auth0spajs@@".

Record CacheKeyData := {
  d_audience : option string;
  d_scope : option string;
  d_client_id : option string
}.

Record CacheKey := {
  prefix : string;
  client_id : option string;
  audience : option string;
  scope : option string
}.

(** [new CacheKey(data, prefix = keyPrefix)]: an [undefined] prefix
    argument takes the default. *)
Definition new_CacheKey (data : CacheKeyData) (p : option string) : CacheKey :=
  {| prefix := match p with Some x => x | None => keyPrefix end;
     client_id := d_client_id data;
     audience := d_audience data;
     scope := d_scope data |}.

(** A key built from defined strings, as [CacheManager] and callers do. *)
Definition mkCacheKey (cid aud sc : string) : CacheKey :=
  new_CacheKey {| d_client_id := Some cid; d_scope := Some sc;
                  d_audience := Some aud |} None.

Definition toKey (k : CacheKey) : string :=
  prefix k ++ "::" ++ show_str (client_id k) ++ "::" ++ show_str (audience k)
    ++ "::" ++ show_str (scope k).

(** [const [prefix, client_id, audience, scope] = key.split('::')]: missing
    positions are [undefined]. *)
Definition fromKey (key : string) : CacheKey :=
  let parts := split_dc key in
  new_CacheKey {| d_client_id := nth_error parts 1;
                  d_scope := nth_error parts 3;
                  d_audience := nth_error parts 2 |}
               (nth_error parts 0).

(** ** [findExistingCacheKey] *)

(** The [filter] callback for one stored key.  [hasAllScopes] is evaluated
    before the final conjunction, so [scope.split] on an [undefined]
    requested scope throws as soon as a stored scope is truthy. *)
Definition key_matches (ck : CacheKey) (key : string) : js_result bool :=
  let cur := fromKey key in
  let currentScopes := scope cur in
  hasAllScopes <-
    (if truthy_str currentScopes then
       let currentScopesArr := split_char space (show_str currentScopes) in
       match scope ck with
       | None => Throw TypeError
       | Some s =>
           Ok (fold_left (fun acc current => acc && includes current currentScopesArr)
                         (split_char space s) true)
       end
     else Ok false) ;;
  Ok (String.eqb (prefix cur) keyPrefix
      && str_eq (client_id cur) (client_id ck)
      && str_eq (audience cur) (audience ck)
      && hasAllScopes).

Fixpoint filter_keys (ck : CacheKey) (keys : list string) : js_result (list string) :=
  match keys with
  | [] => Ok []
  | k :: ks =>
      b <- key_matches ck k ;;
      l <- filter_keys ck ks ;;
      Ok (if b then k :: l else l)
  end.

(** [existingCacheKeys.filter(...)[0]]: [None] is [undefined]. *)
Definition findExistingCacheKey (ck : CacheKey) (keys : list string)
  : js_result (option string) :=
  l <- filter_keys ck keys ;;
  Ok (hd_error l).

(** ** Cache entries *)

Record IdToken := {
  exp : Z;
  other_claims : list (string * string)
}.

Record DecodedToken := {
  claims : IdToken;
  user : list (string * string)
}.

Record CacheEntry := {
  id_token : string;
  access_token : string;
  expires_in : Z;
  decodedToken : DecodedToken;
  e_audience : string;
  e_scope : string;
  e_client_id : string;
  refresh_token : option string
}.

(** [Partial<CacheEntry>]: every field may be absent. *)
Record PartialEntry := {
  p_id_token : option string;
  p_access_token : option string;
  p_expires_in : option Z;
  p_decodedToken : option DecodedToken;
  p_audience : option string;
  p_scope : option string;
  p_client_id : option string;
  p_refresh_token : option string
}.

Definition to_partial (e : CacheEntry) : PartialEntry :=
  {| p_id_token := Some (id_token e);
     p_access_token := Some (access_token e);
     p_expires_in := Some (expires_in e);
     p_decodedToken := Some (decodedToken e);
     p_audience := Some (e_audience e);
     p_scope := Some (e_scope e);
     p_client_id := Some (e_client_id e);
     p_refresh_token := refresh_token e |}.

(** The object literal [{ refresh_token: ... }]. *)
Definition only_refresh (rt : option string) : PartialEntry :=
  {| p_id_token := None; p_access_token := None; p_expires_in := None;
     p_decodedToken := None; p_audience := None; p_scope := None;
     p_client_id := None; p_refresh_token := rt |}.

Record WrappedCacheEntry := {
  body : PartialEntry;
  expiresAt : Z
}.

(** ** The storage interface [ICache] *)

Class ICache (S : Type) := {
  c_set : string -> WrappedCacheEntry -> S -> S;
  c_get : string -> S -> js_result (option WrappedCacheEntry);
  c_remove : string -> S -> S;
  c_clear : S -> S
}.

(** ** [LocalStorageCache] *)

(** The strings [localStorage] holds: [RawJson w] is the text
    [JSON.stringify(w)] of a wrapped entry, [RawNull] the text ["null"], and
    [RawText s] a string [s] that is not JSON text (["" ], ["{oops"], ...). *)
Inductive raw :=
| RawJson (w : WrappedCacheEntry)
| RawNull
| RawText (s : string).

(** Truthiness of the string [getItem] returned ([null] when absent). *)
Definition truthy_raw (r : option raw) : bool :=
  match r with
  | Some (RawJson _) | Some RawNull => true
  | Some (RawText s) => truthy_str (Some s)
  | None => false
  end.

(** [JSON.parse]: [None] is the parsed [null]. *)
Definition JSON_parse (r : raw) : js_result (option WrappedCacheEntry) :=
  match r with
  | RawJson w => Ok (Some w)
  | RawNull => Ok None
  | RawText _ => Throw SyntaxError
  end.

Definition ls_store := list (string * raw).

Fixpoint getItem (k : string) (st : ls_store) : option raw :=
  match st with
  | [] => None
  | (k', v) :: st' => if String.eqb k' k then Some v else getItem k st'
  end.

(** [setItem]: an existing key keeps its place, a new key goes last. *)
Fixpoint setItem (k : string) (v : raw) (st : ls_store) : ls_store :=
  match st with
  | [] => [(k, v)]
  | (k', v') :: st' =>
      if String.eqb k' k then (k', v) :: st' else (k', v') :: setItem k v st'
  end.

Definition removeItem (k : string) (st : ls_store) : ls_store :=
  filter (fun kv => negb (String.eqb (fst kv) k)) st.

(** [Object.keys(window.localStorage)]. *)
Definition ls_keys (st : ls_store) : list string := map fst st.

Definition readJson (ck : CacheKey) (st : ls_store)
  : js_result (option WrappedCacheEntry) :=
  existingCacheKey <- findExistingCacheKey ck (ls_keys st) ;;
  let json :=
    match existingCacheKey with
    | Some (String _ _ as k) => getItem k st
    | _ => None
    end in
  if negb (truthy_raw json) then Ok None
  else match json with
       | Some r => payload <- JSON_parse r ;; Ok payload
       | None => Ok None
       end.

(** [LocalStorageCache.get]: an exception in the promise executor rejects
    the promise, so it reaches the caller's [await]. *)
Definition ls_get (key : string) (st : ls_store)
  : js_result (option WrappedCacheEntry) :=
  readJson (fromKey key) st.

Definition ls_set (key : string) (entry : WrappedCacheEntry) (st : ls_store)
  : ls_store :=
  setItem key (RawJson entry) st.

(** The loop [for (i = localStorage.length - 1; i >= 0; i--)]; [n] is
    [i + 1].  Removing the key at index [i] leaves indices below [i] in
    place, so [localStorage.key(i)] is always defined in the loop. *)
Fixpoint clear_loop (n : nat) (st : ls_store) : ls_store :=
  match n with
  | O => st
  | S i =>
      let st' :=
        match nth_error st i with
        | Some (k, _) => if startsWith keyPrefix k then removeItem k st else st
        | None => st
        end in
      clear_loop i st'
  end.

Definition ls_clear (st : ls_store) : ls_store := clear_loop (length st) st.

#[export] Instance LocalStorageCache : ICache ls_store := {
  c_set := ls_set;
  c_get := ls_get;
  c_remove := removeItem;
  c_clear := ls_clear
}.

(** ** [InMemoryCache.enclosedCache]

    The private object [cache], as its keys in [Object.keys] order. *)

Definition mem_store := list (string * WrappedCacheEntry).

Fixpoint mem_lookup (k : string) (mc : mem_store) : option WrappedCacheEntry :=
  match mc with
  | [] => None
  | (k', v) :: mc' => if String.eqb k' k then Some v else mem_lookup k mc'
  end.

(** [cache[existingCacheKey]]: an [undefined] property name is the string
    ["undefined"]. *)
Definition mem_get (key : string) (mc : mem_store)
  : js_result (option WrappedCacheEntry) :=
  existingCacheKey <- findExistingCacheKey (fromKey key) (map fst mc) ;;
  Ok (mem_lookup (show_str existingCacheKey) mc).

(** The key each backend's [get] selects with [findExistingCacheKey]. *)
Definition ls_select (key : string) (st : ls_store) : js_result (option string) :=
  findExistingCacheKey (fromKey key) (ls_keys st).

Definition mem_select (key : string) (mc : mem_store) : js_result (option string) :=
  findExistingCacheKey (fromKey key) (map fst mc).

(** [enclosedCache.set]: [cache[key] = entry].  The keys written by this
    subsystem are not array indices, so an existing property keeps its
    place and a new one is enumerated last. *)
Fixpoint mem_set (key : string) (entry : WrappedCacheEntry) (mc : mem_store)
  : mem_store :=
  match mc with
  | [] => [(key, entry)]
  | (k', v') :: mc' =>
      if String.eqb k' key then (k', entry) :: mc' else (k', v') :: mem_set key entry mc'
  end.

(** [enclosedCache.remove]: [delete cache[key]]. *)
Definition mem_remove (key : string) (mc : mem_store) : mem_store :=
  filter (fun kv => negb (String.eqb (fst kv) key)) mc.

(** [enclosedCache.clear]: [cache = {}]. *)
Definition mem_clear (mc : mem_store) : mem_store := [].

(** ** [CacheManager]

    [now] is [Date.now()] in milliseconds. *)

Section Manager.
Context {S : Type} `{ICache S}.

Definition CacheManager_get (cacheKey : CacheKey) (expiryAdjustmentSeconds now : Z)
  (st : S) : js_result (option PartialEntry) * S :=
  let key := toKey cacheKey in
  match c_get key st with
  | Throw e => (Throw e, st)
  | Ok None => (Ok None, st)
  | Ok (Some wrappedEntry) =>
      let nowSeconds := (now / 1000)%Z in
      if (expiresAt wrappedEntry - expiryAdjustmentSeconds <? nowSeconds)%Z then
        if truthy_str (p_refresh_token (body wrappedEntry)) then
          let wrappedEntry' :=
            {| body := only_refresh (p_refresh_token (body wrappedEntry));
               expiresAt := expiresAt wrappedEntry |} in
          (Ok (Some (body wrappedEntry')), c_set key wrappedEntry' st)
        else (Ok None, c_remove key st)
      else (Ok (Some (body wrappedEntry)), st)
  end.

Definition wrapCacheEntry (entry : CacheEntry) (now : Z) : WrappedCacheEntry :=
  let expiresInTime := (now / 1000 + expires_in entry)%Z in
  let expirySeconds := Z.min expiresInTime (exp (claims (decodedToken entry))) in
  {| body := to_partial entry; expiresAt := expirySeconds |}.

Definition CacheManager_set (entry : CacheEntry) (now : Z) (st : S) : S :=
  let cacheKey := mkCacheKey (e_client_id entry) (e_audience entry) (e_scope entry) in
  c_set (toKey cacheKey) (wrapCacheEntry entry now) st.

Definition CacheManager_clear (st : S) : S := c_clear st.

End Manager.

(** ** Conditions on key components *)

(** [has_dc s]: the string [s] contains ["::"]. *)
Fixpoint has_dc (s : string) : bool :=
  match s with
  | String c ((String c' _) as rest) =>
      (Ascii.eqb c colon && Ascii.eqb c' colon) || has_dc rest
  | _ => false
  end.

(** [ends_colon s]: the last character of [s] is [':']. *)
Fixpoint ends_colon (s : string) : bool :=
  match s with
  | EmptyString => false
  | String c EmptyString => Ascii.eqb c colon
  | String _ rest => ends_colon rest
  end.

(** ** The token request builder [oauthToken] *)

Record TokenEndpointOptions := {
  baseUrl : string;
  timeout : option Z;
  t_audience : option string;
  t_scope : string;
  auth0Client : option (list (string * string));
  useFormData : option bool;
  disableAuth0Client : option bool;
  tokenPath : option string;
  (** the remaining properties, [...options], in order *)
  options : list (string * string)
}.

Record FetchOptions := {
  method : string;
  req_body : string;
  headers : list (string * string)
}.

(** The arguments [oauthToken] passes to the transport [getJSON]. *)
Record GetJSONCall := {
  g_url : string;
  g_timeout : option Z;
  g_audience : string;
  g_scope : string;
  g_fetchOptions : FetchOptions;
  g_useFormData : bool
}.

Definition truthy_bool (b : option bool) : bool :=
  match b with Some true => true | _ => false end.

Section TokenRequest.
(** [DEFAULT_TOKEN_PATH] and [DEFAULT_AUTH0_CLIENT] of constants.ts, and the
    built-ins [JSON.stringify] (on objects of strings), [btoa] and
    [encodeURIComponent]. *)
Variable DEFAULT_TOKEN_PATH : string.
Variable DEFAULT_AUTH0_CLIENT : list (string * string).
Variable JSON_stringify : list (string * string) -> string.
Variable btoa : string -> string.
Variable encodeURIComponent : string -> string.

(** Modelled from the spec: [createQueryParams] of utils.ts, which is not
    among the sources; the spec calls its result the URL-form encoding of
    the grant parameters: each [key=value] pair percent-encoded, the pairs
    joined with ["&"]. *)
Definition createQueryParams (params : list (string * string)) : string :=
  String.concat "&"
    (map (fun kv => (encodeURIComponent (fst kv) ++ "=" ++ encodeURIComponent (snd kv))%string)
         params).

Definition oauthToken (o : TokenEndpointOptions) : GetJSONCall :=
  let tokenPath := match tokenPath o with Some p => p | None => DEFAULT_TOKEN_PATH end in
  let body := if truthy_bool (useFormData o)
              then createQueryParams (options o)
              else JSON_stringify (options o) in
  let headers0 :=
    [("Content-Type", if truthy_bool (useFormData o)
                      then "application/x-www-form-urlencoded"
                      else "application/json")] in
  let headers :=
    if negb (truthy_bool (disableAuth0Client o))
    then (headers0 ++ [("Auth0-Client",
                        btoa (JSON_stringify
                                (match auth0Client o with
                                 | Some c => c
                                 | None => DEFAULT_AUTH0_CLIENT
                                 end)))])%list
    else headers0 in
  {| g_url := (baseUrl o ++ "/" ++ tokenPath)%string;
     g_timeout := timeout o;
     g_audience := match t_audience o with
                   | Some (String _ _ as a) => a
                   | _ => "default"
                   end;
     g_scope := t_scope o;
     g_fetchOptions := {| method := "POST"; req_body := body; headers := headers |};
     g_useFormData := truthy_bool (useFormData o) |}.

End TokenRequest.

(** ** Scope matching as the spec words it

    [select_claim] follows the spec's sentence: the first stored key whose
    prefix is the namespace tag, whose client id and audience equal the
    requested ones, and whose scope, split on whitespace, contains every
    token of the requested scope. *)

Definition is_ws (c : ascii) : bool :=
  Ascii.eqb c " "%char || Ascii.eqb c "009"%char || Ascii.eqb c "010"%char
  || Ascii.eqb c "013"%char.

Fixpoint split_ws (s : string) : list string :=
  match s with
  | EmptyString => [EmptyString]
  | String c rest =>
      if is_ws c then EmptyString :: split_ws rest else cons_head c (split_ws rest)
  end.

Definition ws_tokens (s : string) : list string :=
  filter (fun t => negb (String.eqb t EmptyString)) (split_ws s).

Definition select_claim (ck : CacheKey) (keys : list string) : option string :=
  find (fun k =>
          let cur := fromKey k in
          String.eqb (prefix cur) keyPrefix
          && str_eq (client_id cur) (client_id ck)
          && str_eq (audience cur) (audience ck)
          && match scope cur, scope ck with
             | Some stored, Some requested =>
                 forallb (fun t => existsb (String.eqb t) (ws_tokens stored))
                         (ws_tokens requested)
             | _, _ => false
             end) keys.

(** [select_amended]: the same selection with the stored scope required to
    be a non-empty string and both scopes split on the single space. *)
Definition amended_pred (ck : CacheKey) (k : string) : bool :=
  let cur := fromKey k in
  String.eqb (prefix cur) keyPrefix
  && str_eq (client_id cur) (client_id ck)
  && str_eq (audience cur) (audience ck)
  && truthy_str (scope cur)
  && forallb (fun t => includes t (split_char space (show_str (scope cur))))
             (split_char space (show_str (scope ck))).

Definition select_amended (ck : CacheKey) (keys : list string) : option string :=
  find (amended_pred ck) keys.

(** The value of a header in a headers object, [headers[name]]. *)
Fixpoint header_value (name : string) (h : list (string * string)) : option string :=
  match h with
  | [] => None
  | (n, v) :: h' => if String.eqb n name then Some v else header_value name h'
  end.

(** * Properties *)

(** ** Splitting *)

Lemma cons_head_cons c x xs : cons_head c (x :: xs) = String c x :: xs.
Proof. reflexivity. Qed.

Lemma split_dc_cons2 c c' r :
  split_dc (String c (String c' r)) =
    if Ascii.eqb c colon && Ascii.eqb c' colon
    then EmptyString :: split_dc r
    else cons_head c (split_dc (String c' r)).
Proof. reflexivity. Qed.

Lemma has_dc_cons2 c c' r :
  has_dc (String c (String c' r)) =
    (Ascii.eqb c colon && Ascii.eqb c' colon) || has_dc (String c' r).
Proof. reflexivity. Qed.

Lemma split_dc_no_dc s : has_dc s = false -> split_dc s = [s].
Proof.
  induction s as [|c s IH]; intros H; [reflexivity|].
  destruct s as [|c' s']; [reflexivity|].
  rewrite has_dc_cons2 in H. apply orb_false_iff in H as [H1 H2].
  rewrite split_dc_cons2, H1, (IH H2). reflexivity.
Qed.

Lemma split_dc_app s t :
  has_dc s = false -> ends_colon s = false ->
  split_dc (s ++ "::" ++ t) = s :: split_dc t.
Proof.
  induction s as [|c s IH]; intros H1 H2; [reflexivity|].
  destruct s as [|c' s'].
  - simpl in H2 |- *. rewrite H2. reflexivity.
  - rewrite has_dc_cons2 in H1. apply orb_false_iff in H1 as [H1a H1b].
    change (String c (String c' s') ++ "::" ++ t)
      with (String c (String c' (s' ++ "::" ++ t))).
    rewrite split_dc_cons2, H1a.
    change (String c' (s' ++ "::" ++ t)) with (String c' s' ++ "::" ++ t).
    rewrite (IH H1b H2). reflexivity.
Qed.

(** The four parts of a key whose components do not collide with the
    delimiter. *)
Lemma split_toKey ck :
  has_dc (prefix ck) = false -> ends_colon (prefix ck) = false ->
  has_dc (show_str (client_id ck)) = false ->
  ends_colon (show_str (client_id ck)) = false ->
  has_dc (show_str (audience ck)) = false ->
  ends_colon (show_str (audience ck)) = false ->
  has_dc (show_str (scope ck)) = false ->
  split_dc (toKey ck) =
    [prefix ck; show_str (client_id ck); show_str (audience ck); show_str (scope ck)].
Proof.
  intros. unfold toKey.
  rewrite split_dc_app by assumption.
  rewrite split_dc_app by assumption.
  rewrite split_dc_app by assumption.
  rewrite split_dc_no_dc by assumption. reflexivity.
Qed.

Lemma fromKey_toKey ck :
  has_dc (prefix ck) = false -> ends_colon (prefix ck) = false ->
  has_dc (show_str (client_id ck)) = false ->
  ends_colon (show_str (client_id ck)) = false ->
  has_dc (show_str (audience ck)) = false ->
  ends_colon (show_str (audience ck)) = false ->
  has_dc (show_str (scope ck)) = false ->
  fromKey (toKey ck) =
    {| prefix := prefix ck; client_id := Some (show_str (client_id ck));
       audience := Some (show_str (audience ck));
       scope := Some (show_str (scope ck)) |}.
Proof.
  intros. unfold fromKey. rewrite split_toKey by assumption. reflexivity.
Qed.

(** ** [findExistingCacheKey] *)

Lemma fold_and_forallb (f : string -> bool) l b :
  fold_left (fun acc x => acc && f x) l b = b && forallb f l.
Proof.
  revert b; induction l as [|x l IH]; intros b; simpl.
  - now rewrite andb_true_r.
  - rewrite IH. now rewrite andb_assoc.
Qed.

Lemma hd_error_filter {A} (f : A -> bool) l : hd_error (filter f l) = find f l.
Proof.
  induction l as [|x l IH]; simpl; [reflexivity|].
  destruct (f x); simpl; auto.
Qed.

Lemma key_matches_defined ck sc k :
  scope ck = Some sc -> key_matches ck k = Ok (amended_pred ck k).
Proof.
  intros Hs. unfold key_matches, amended_pred. rewrite Hs.
  set (cur := fromKey k).
  destruct (truthy_str (scope cur)); cbn [js_bind show_str].
  - rewrite fold_and_forallb, andb_true_l, andb_true_r. reflexivity.
  - rewrite !andb_false_r. reflexivity.
Qed.

Lemma filter_keys_defined ck sc keys :
  scope ck = Some sc -> filter_keys ck keys = Ok (filter (amended_pred ck) keys).
Proof.
  intros Hs. induction keys as [|k ks IH]; simpl; [reflexivity|].
  rewrite (key_matches_defined ck sc k Hs). simpl. rewrite IH. reflexivity.
Qed.

Lemma filter_keys_sound ck keys l k :
  filter_keys ck keys = Ok l -> In k l -> key_matches ck k = Ok true.
Proof.
  revert l; induction keys as [|k0 ks IH]; intros l H Hin; simpl in H.
  - injection H as <-. destruct Hin.
  - destruct (key_matches ck k0) as [b|e] eqn:Hk; simpl in H; [|discriminate].
    destruct (filter_keys ck ks) as [l'|e] eqn:Hr; simpl in H; [|discriminate].
    injection H as <-. destruct b.
    + destruct Hin as [<-|Hin]; [assumption|]. exact (IH l' eq_refl Hin).
    + exact (IH l' eq_refl Hin).
Qed.

Lemma findExistingCacheKey_sound ck keys k :
  findExistingCacheKey ck keys = Ok (Some k) -> key_matches ck k = Ok true.
Proof.
  unfold findExistingCacheKey. intros H.
  destruct (filter_keys ck keys) as [l|e] eqn:Hf; simpl in H; [|discriminate].
  destruct l as [|k0 l]; simpl in H; [discriminate|]. injection H as ->.
  apply (filter_keys_sound ck keys (k :: l)); simpl; auto.
Qed.

Lemma split_char_tokens q :
  q <> [] -> Forall (fun t => In t ["a"; "b"; "c"]) q ->
  split_char space (String.concat " " q) = q.
Proof.
  induction q as [|t q IH]; intros Hne Hall; [contradiction|].
  inversion Hall as [|? ? Ht Hq]; subst.
  destruct q as [|t' q'].
  - simpl in Ht. destruct Ht as [<-|[<-|[<-|[]]]]; reflexivity.
  - change (String.concat " " (t :: t' :: q'))
      with (t ++ " " ++ String.concat " " (t' :: q')).
    rewrite <- (IH ltac:(discriminate) Hq) at 2.
    simpl in Ht. destruct Ht as [<-|[<-|[<-|[]]]]; reflexivity.
Qed.

Lemma amended_pred_toKey cid aud sc ck :
  has_dc cid = false -> ends_colon cid = false ->
  has_dc aud = false -> ends_colon aud = false -> has_dc sc = false ->
  amended_pred ck (toKey (mkCacheKey cid aud sc)) =
    str_eq (Some cid) (client_id ck) && str_eq (Some aud) (audience ck)
    && truthy_str (Some sc)
    && forallb (fun t => includes t (split_char space sc))
               (split_char space (show_str (scope ck))).
Proof.
  intros. unfold amended_pred.
  rewrite fromKey_toKey by (simpl; (reflexivity || assumption)).
  reflexivity.
Qed.

Lemma findExistingCacheKey_select p cid aud sc keys :
  let ck := {| prefix := p; client_id := cid; audience := aud;
               scope := Some sc |} in
  findExistingCacheKey ck keys = Ok (select_amended ck keys).
Proof.
  intros ck. unfold findExistingCacheKey, select_amended.
  rewrite (filter_keys_defined ck sc keys eq_refl). simpl.
  now rewrite hd_error_filter.
Qed.

Lemma findExistingCacheKey_mk cid aud sc keys :
  findExistingCacheKey (mkCacheKey cid aud sc) keys
  = Ok (select_amended (mkCacheKey cid aud sc) keys).
Proof. exact (findExistingCacheKey_select keyPrefix (Some cid) (Some aud) sc keys). Qed.

(** ** Claim C5 *)

(** C5 (amended): serialising a key, parsing it back and serialising the
    result gives the original key string when no component contains ["::"]
    and none of the prefix, client id and audience ends with [':']. *)
Theorem toKey_fromKey_roundtrip ck :
  has_dc (prefix ck) = false -> ends_colon (prefix ck) = false ->
  has_dc (show_str (client_id ck)) = false ->
  ends_colon (show_str (client_id ck)) = false ->
  has_dc (show_str (audience ck)) = false ->
  ends_colon (show_str (audience ck)) = false ->
  has_dc (show_str (scope ck)) = false ->
  toKey (fromKey (toKey ck)) = toKey ck.
Proof.
  intros. rewrite fromKey_toKey by assumption. reflexivity.
Qed.

Lemma toKey_fromKey_roundtrip_witness :
  toKey (fromKey (toKey (mkCacheKey "spa" "https://api.example.com/" "openid profile")))
  = toKey (mkCacheKey "spa" "https://api.example.com/" "openid profile").
Proof. apply toKey_fromKey_roundtrip; vm_compute; reflexivity. Defined.

(** C5 counterexample: the audience ["a:"] and the scope [":s"] contain no
    ["::"], but the key they produce splits into five parts, and the round
    trip drops the last one. *)
Lemma toKey_fromKey_counterexample :
  let ck := mkCacheKey "c" "a:" ":s" in
  has_dc (prefix ck) = false /\ has_dc "c" = false /\ has_dc "a:" = false
  /\ has_dc ":s" = false
  /\ toKey ck = "@@auth0spajs@@::c::a::::s"
  /\ toKey (fromKey (toKey ck)) = "@@auth0spajs@@::c::a::"
  /\ toKey (fromKey (toKey ck)) <> toKey ck.
Proof. vm_compute. repeat split; try reflexivity. discriminate. Qed.

(** ** Claim C1 *)

(** C1 (amended): for a requested key with a defined scope, the lookup
    returns the first stored key whose parsed prefix is [keyPrefix], whose
    client id and audience equal the requested ones, whose scope is a
    non-empty string, and whose scope split on [' '] contains every token of
    the requested scope split on [' ']; an entry stored for ["a b c"] is
    found for every non-empty space-joined query over [a], [b], [c], and
    not for ["a b c d"]. *)
Theorem findExistingCacheKey_scope_superset :
  (forall p cid aud sc keys,
      let ck := {| prefix := p; client_id := cid; audience := aud;
                   scope := Some sc |} in
      findExistingCacheKey ck keys = Ok (select_amended ck keys))
  /\ (forall cid aud q,
      has_dc cid = false -> ends_colon cid = false ->
      has_dc aud = false -> ends_colon aud = false ->
      q <> [] -> Forall (fun t => In t ["a"; "b"; "c"]) q ->
      findExistingCacheKey (mkCacheKey cid aud (String.concat " " q))
                           [toKey (mkCacheKey cid aud "a b c")]
      = Ok (Some (toKey (mkCacheKey cid aud "a b c"))))
  /\ (forall cid aud,
      has_dc cid = false -> ends_colon cid = false ->
      has_dc aud = false -> ends_colon aud = false ->
      findExistingCacheKey (mkCacheKey cid aud "a b c d")
                           [toKey (mkCacheKey cid aud "a b c")] = Ok None).
Proof.
  split; [exact findExistingCacheKey_select|]. split.
  - intros cid aud q Hc1 Hc2 Ha1 Ha2 Hne Hall.
    rewrite findExistingCacheKey_mk.
    unfold select_amended. simpl find.
    rewrite amended_pred_toKey by (assumption || reflexivity). simpl.
    rewrite !String.eqb_refl, (split_char_tokens q Hne Hall). simpl.
    replace (forallb _ q) with true; [reflexivity|].
    symmetry. apply forallb_forall. intros t Ht.
    rewrite Forall_forall in Hall. specialize (Hall t Ht).
    destruct Hall as [<-|[<-|[<-|[]]]]; reflexivity.
  - intros cid aud Hc1 Hc2 Ha1 Ha2.
    rewrite findExistingCacheKey_mk.
    unfold select_amended. simpl find.
    rewrite amended_pred_toKey by (assumption || reflexivity).
    simpl. rewrite !andb_false_r. reflexivity.
Qed.

Lemma findExistingCacheKey_scope_superset_witness :
  findExistingCacheKey (mkCacheKey "spa" "default" (String.concat " " ["c"; "a"]))
                       [toKey (mkCacheKey "spa" "default" "a b c")]
  = Ok (Some (toKey (mkCacheKey "spa" "default" "a b c"))).
Proof.
  apply (proj1 (proj2 findExistingCacheKey_scope_superset));
    try reflexivity; try discriminate.
  constructor; [simpl; right; right; left; reflexivity|].
  constructor; [simpl; left; reflexivity|]. constructor.
Defined.

(** C1 counterexample: a key stored with the empty scope and a request for
    the empty scope.  Split on whitespace, the stored scope set contains
    every requested token (there is none), so the spec's selection picks the
    key; the code's [currentScopes && ...] rejects it. *)
Lemma findExistingCacheKey_counterexample :
  let ck := mkCacheKey "spa" "default" "" in
  let stored := "@@auth0spajs@@::spa::default::" in
  select_claim ck [stored] = Some stored
  /\ findExistingCacheKey ck [stored] = Ok None.
Proof. vm_compute. split; reflexivity. Qed.

(** ** Claim C10 *)

Lemma key_matches_empty_scope ck k :
  scope (fromKey k) = Some "" -> key_matches ck k = Ok false.
Proof.
  intros Hs. unfold key_matches. rewrite Hs. cbn [truthy_str js_bind].
  now rewrite andb_false_r.
Qed.

(** C10 (amended): a stored key whose parsed scope is [""] is never
    selected; the key under which [CacheManager.set] stores an entry with
    the empty scope parses back to the scope [""] when its client id and
    audience neither contain ["::"] nor end with [':'], so that key is never
    selected by any lookup. *)
Theorem empty_scope_never_selected :
  (forall ck keys k,
      scope (fromKey k) = Some "" -> findExistingCacheKey ck keys <> Ok (Some k))
  /\ (forall (entry : CacheEntry) ck keys,
      e_scope entry = "" ->
      has_dc (e_client_id entry) = false -> ends_colon (e_client_id entry) = false ->
      has_dc (e_audience entry) = false -> ends_colon (e_audience entry) = false ->
      findExistingCacheKey ck keys
      <> Ok (Some (toKey (mkCacheKey (e_client_id entry) (e_audience entry)
                                     (e_scope entry))))).
Proof.
  assert (H1 : forall ck keys k,
      scope (fromKey k) = Some "" -> findExistingCacheKey ck keys <> Ok (Some k)).
  { intros ck keys k Hs Hf. apply findExistingCacheKey_sound in Hf.
    rewrite (key_matches_empty_scope ck k Hs) in Hf. discriminate. }
  split; [exact H1|].
  intros entry ck keys Hsc Hc1 Hc2 Ha1 Ha2. apply H1.
  rewrite fromKey_toKey by (simpl; rewrite ?Hsc; (assumption || reflexivity)).
  simpl. now rewrite Hsc.
Qed.

Lemma empty_scope_never_selected_witness :
  scope (fromKey (toKey (mkCacheKey "spa" "default" ""))) = Some ""
  /\ findExistingCacheKey (mkCacheKey "spa" "default" "")
       [toKey (mkCacheKey "spa" "default" "")]
     <> Ok (Some (toKey (mkCacheKey "spa" "default" ""))).
Proof.
  split; [vm_compute; reflexivity|].
  apply (proj1 empty_scope_never_selected). vm_compute. reflexivity.
Defined.

(** C10 counterexample: an entry stored with the empty scope under the
    audience [":"] (no ["::"] in it) gets the key
    ["@@auth0spajs@@::spa:::::"], which parses to the audience [""] and the
    scope [":"]; [get] with the same key serves the entry. *)
Lemma empty_scope_never_selected_counterexample :
  let entry := {| id_token := "id"; access_token := "at"; expires_in := 3600%Z;
                  decodedToken := {| claims := {| exp := 5000%Z; other_claims := [] |};
                                     user := [] |};
                  e_audience := ":"; e_scope := ""; e_client_id := "spa";
                  refresh_token := None |} in
  let st := CacheManager_set entry 0%Z ([] : ls_store) in
  has_dc (e_audience entry) = false
  /\ CacheManager_get (mkCacheKey "spa" ":" "") 0%Z 0%Z st
     = (Ok (Some (to_partial entry)), st).
Proof. vm_compute. split; reflexivity. Qed.

(** ** Stores *)

Lemma getItem_setItem k k' v st :
  getItem k (setItem k' v st) = if String.eqb k' k then Some v else getItem k st.
Proof.
  induction st as [|[k0 v0] st IH]; simpl; [reflexivity|].
  destruct (String.eqb_spec k0 k') as [->|Hne]; simpl.
  - destruct (String.eqb k' k); reflexivity.
  - rewrite IH. destruct (String.eqb_spec k0 k) as [->|]; [|reflexivity].
    destruct (String.eqb_spec k' k) as [->|]; [contradiction|reflexivity].
Qed.

Lemma getItem_removeItem k k' st :
  getItem k (removeItem k' st) = if String.eqb k' k then None else getItem k st.
Proof.
  unfold removeItem.
  induction st as [|[k0 v0] st IH]; simpl; [now destruct (String.eqb k' k)|].
  destruct (String.eqb_spec k0 k') as [->|Hne]; simpl.
  - rewrite IH. destruct (String.eqb k' k); reflexivity.
  - rewrite IH. destruct (String.eqb_spec k0 k) as [->|]; [|reflexivity].
    destruct (String.eqb_spec k' k) as [->|]; [contradiction|reflexivity].
Qed.

Lemma ls_get_stored key st w :
  ls_get key st = Ok (Some w) -> exists k, getItem k st = Some (RawJson w).
Proof.
  unfold ls_get, readJson.
  destruct (findExistingCacheKey (fromKey key) (ls_keys st)) as [ek|e];
    simpl; [|discriminate].
  destruct ek as [[|c r]|]; simpl; try discriminate.
  destruct (getItem (String c r) st) as [[w0| |s]|] eqn:Hg; simpl;
    try discriminate.
  - intros H. injection H as ->. eauto.
  - destruct s; discriminate.
Qed.

(** [floor(now / 1000) > t] exactly when [now >= (t + 1) * 1000]. *)
Lemma expired_iff_ms t now :
  (t <? now / 1000)%Z = negb (now <? (t + 1) * 1000)%Z.
Proof.
  pose proof (Z.div_mod now 1000 ltac:(lia)).
  pose proof (Z.mod_pos_bound now 1000 ltac:(lia)).
  set (q := (now / 1000)%Z) in *. set (r := (now mod 1000)%Z) in *.
  destruct (Z.ltb_spec t q); destruct (Z.ltb_spec now ((t + 1) * 1000)); simpl;
    reflexivity || lia.
Qed.

(** ** Claim C2 *)

(** C2 (amended): when the backend returns the wrapped entry [w] for the
    requested key, [CacheManager.get] returns the full stored body while
    [floor(now / 1000) <= expiresAt - adjustment], that is while
    [now < (expiresAt - adjustment + 1) * 1000] milliseconds; afterwards it
    returns exactly [{refresh_token}] when the body's [refresh_token] is a
    non-empty string, and absent otherwise.  This holds for every [ICache]
    backend. *)
Theorem CacheManager_get_expiry {S} `{ICache S} ck adj now (st : S) w :
  c_get (toKey ck) st = Ok (Some w) ->
  fst (CacheManager_get ck adj now st) =
    if (now <? (expiresAt w - adj + 1) * 1000)%Z then Ok (Some (body w))
    else if truthy_str (p_refresh_token (body w))
         then Ok (Some (only_refresh (p_refresh_token (body w))))
         else Ok None.
Proof.
  intros Hg. unfold CacheManager_get. rewrite Hg.
  rewrite expired_iff_ms.
  destruct (now <? (expiresAt w - adj + 1) * 1000)%Z; simpl; [reflexivity|].
  destruct (truthy_str (p_refresh_token (body w))); reflexivity.
Qed.

Lemma CacheManager_get_expiry_witness :
  let b := {| p_id_token := Some "id"; p_access_token := Some "at";
              p_expires_in := Some 3600%Z; p_decodedToken := None;
              p_audience := Some "default"; p_scope := Some "openid";
              p_client_id := Some "spa"; p_refresh_token := Some "rt" |} in
  let w := {| body := b; expiresAt := 100%Z |} in
  let st : ls_store := [("@@auth0spajs@@::spa::default::openid", RawJson w)] in
  fst (CacheManager_get (mkCacheKey "spa" "default" "openid") 0 101000 st)
  = Ok (Some (only_refresh (Some "rt"))).
Proof.
  intros b w st.
  rewrite (CacheManager_get_expiry (mkCacheKey "spa" "default" "openid") 0 101000 st w)
    by (vm_compute; reflexivity).
  vm_compute. reflexivity.
Defined.

(** C2 counterexample: at [now = 100500] ms, half a second after
    [expiresAt = 100], [get] with adjustment [0] still returns the full body,
    not [{refresh_token}]. *)
Lemma CacheManager_get_expiry_counterexample :
  let b := {| p_id_token := Some "id"; p_access_token := Some "at";
              p_expires_in := Some 3600%Z; p_decodedToken := None;
              p_audience := Some "default"; p_scope := Some "openid";
              p_client_id := Some "spa"; p_refresh_token := Some "rt" |} in
  let w := {| body := b; expiresAt := 100%Z |} in
  let st : ls_store := [("@@auth0spajs@@::spa::default::openid", RawJson w)] in
  (expiresAt w * 1000 <= 100500)%Z
  /\ fst (CacheManager_get (mkCacheKey "spa" "default" "openid") 0 100500 st)
     = Ok (Some b)
  /\ b <> only_refresh (p_refresh_token b).
Proof.
  intros b w st. split; [vm_compute; discriminate|]. split.
  - vm_compute. reflexivity.
  - discriminate.
Qed.

(** ** Claim C3 *)

(** C3: [CacheManager.set] stores [{body: entry, expiresAt}] with
    [expiresAt = min(floor(now / 1000) + expires_in, claims.exp)] under
    [keyPrefix::client_id::audience::scope], replacing what that key held and
    leaving every other key alone; and a later [get] never computes a new
    [expiresAt]: every wrapped entry stored after it carries an [expiresAt]
    some stored entry carried before. *)
Theorem CacheManager_set_expiresAt (entry : CacheEntry) now (st : ls_store) :
  let K := (keyPrefix ++ "::" ++ e_client_id entry ++ "::" ++ e_audience entry
            ++ "::" ++ e_scope entry)%string in
  let w := {| body := to_partial entry;
              expiresAt := Z.min (now / 1000 + expires_in entry)
                                 (exp (claims (decodedToken entry))) |} in
  (forall k, getItem k (CacheManager_set entry now st)
             = if String.eqb K k then Some (RawJson w) else getItem k st)
  /\ (forall ck adj now' (st0 : ls_store) k w',
        getItem k (snd (CacheManager_get ck adj now' st0)) = Some (RawJson w') ->
        exists k0 w0, getItem k0 st0 = Some (RawJson w0)
                      /\ expiresAt w0 = expiresAt w').
Proof.
  intros K w. split.
  - intros k. unfold CacheManager_set. cbn [c_set LocalStorageCache].
    unfold ls_set. rewrite getItem_setItem. reflexivity.
  - intros ck adj now' st0 k w' Hk. unfold CacheManager_get in Hk.
    cbn [c_get c_set c_remove LocalStorageCache] in Hk.
    destruct (ls_get (toKey ck) st0) as [[w0|]|e] eqn:Hg; simpl in Hk;
      try (exists k, w'; split; [assumption|reflexivity]).
    destruct (ls_get_stored _ _ _ Hg) as [k0 Hk0].
    destruct (expiresAt w0 - adj <? now' / 1000)%Z; simpl in Hk;
      [|exists k, w'; split; [assumption|reflexivity]].
    destruct (truthy_str (p_refresh_token (body w0))); simpl in Hk.
    + unfold ls_set in Hk. rewrite getItem_setItem in Hk.
      destruct (String.eqb (toKey ck) k).
      * injection Hk as <-. exists k0, w0. split; [assumption|reflexivity].
      * exists k, w'. split; [assumption|reflexivity].
    + rewrite getItem_removeItem in Hk. destruct (String.eqb (toKey ck) k);
        [discriminate|].
      exists k, w'. split; [assumption|reflexivity].
Qed.

Lemma CacheManager_set_expiresAt_witness :
  let entry := {| id_token := "id"; access_token := "at"; expires_in := 3600%Z;
                  decodedToken := {| claims := {| exp := 60%Z; other_claims := [] |};
                                     user := [] |};
                  e_audience := "default"; e_scope := "openid"; e_client_id := "spa";
                  refresh_token := Some "rt" |} in
  let st := CacheManager_set entry 0 ([] : ls_store) in
  exists k0 w0, getItem k0 st = Some (RawJson w0)
    /\ expiresAt w0
       = expiresAt {| body := only_refresh (Some "rt"); expiresAt := 60%Z |}.
Proof.
  intros entry st.
  apply (proj2 (CacheManager_set_expiresAt entry 0%Z [])
               (mkCacheKey "spa" "default" "openid") 0%Z 61000%Z st
               "@@auth0spajs@@::spa::default::openid"
               {| body := only_refresh (Some "rt"); expiresAt := 60%Z |}).
  vm_compute. reflexivity.
Defined.

(** ** Claim C4 *)

(** C4 (code defect): the expired entry is found under the wider-scope key
    ["openid profile"] while [get] asks for ["openid"].  Without a refresh
    token, [get] removes the requested key, which holds nothing, and the
    expired entry stays; with a refresh token, the remnant is written under
    the requested key and the full expired entry stays beside it. *)
Lemma CacheManager_get_superset_expired_code_bug :
  let stored := "@@auth0spajs@@::spa::default::openid profile" in
  let requested := mkCacheKey "spa" "default" "openid" in
  let b (rt : option string) :=
    {| p_id_token := Some "id"; p_access_token := Some "at";
       p_expires_in := Some 3600%Z; p_decodedToken := None;
       p_audience := Some "default"; p_scope := Some "openid profile";
       p_client_id := Some "spa"; p_refresh_token := rt |} in
  let st (rt : option string) : ls_store :=
    [(stored, RawJson {| body := b rt; expiresAt := 100%Z |})] in
  CacheManager_get requested 0 200000 (st None) = (Ok None, st None)
  /\ CacheManager_get requested 0 200000 (st (Some "rt"))
     = (Ok (Some (only_refresh (Some "rt"))),
        st (Some "rt")
        ++ [("@@auth0spajs@@::spa::default::openid",
             RawJson {| body := only_refresh (Some "rt"); expiresAt := 100%Z |})])%list.
Proof. vm_compute. split; reflexivity. Qed.

(** ** Claim C8 *)

Lemma findExistingCacheKey_nonempty ck keys k :
  findExistingCacheKey ck keys = Ok (Some k) -> k <> EmptyString.
Proof.
  intros Hf ->. apply findExistingCacheKey_sound in Hf. discriminate.
Qed.

(** C8 (amended): when the key the lookup selects holds a string that is
    not JSON text, [CacheManager.get] throws [JSON.parse]'s [SyntaxError]
    if the string is non-empty and returns absent if it is empty; either
    way it leaves the store as it was. *)
Theorem CacheManager_get_malformed (st : ls_store) ck adj now k s :
  ls_select (toKey ck) st = Ok (Some k) ->
  getItem k st = Some (RawText s) ->
  CacheManager_get ck adj now st
  = (match s with EmptyString => Ok None | String _ _ => Throw SyntaxError end, st).
Proof.
  intros Hsel Hk. pose proof (findExistingCacheKey_nonempty _ _ _ Hsel) as Hne.
  unfold CacheManager_get. cbn [c_get LocalStorageCache].
  unfold ls_get, readJson. unfold ls_select in Hsel. rewrite Hsel. simpl.
  destruct k as [|c r]; [contradiction|]. rewrite Hk.
  destruct s as [|c' s']; reflexivity.
Qed.

Lemma CacheManager_get_malformed_witness :
  let st : ls_store := [("@@auth0spajs@@::spa::default::openid", RawText "{oops")] in
  let st' : ls_store := [("@@auth0spajs@@::spa::default::openid", RawText "")] in
  CacheManager_get (mkCacheKey "spa" "default" "openid") 0 0 st = (Throw SyntaxError, st)
  /\ CacheManager_get (mkCacheKey "spa" "default" "openid") 0 0 st' = (Ok None, st').
Proof.
  intros st st'. split.
  - apply (CacheManager_get_malformed st _ 0%Z 0%Z "@@auth0spajs@@::spa::default::openid" "{oops");
      [vm_compute; reflexivity | reflexivity].
  - apply (CacheManager_get_malformed st' _ 0%Z 0%Z "@@auth0spajs@@::spa::default::openid" "");
      [vm_compute; reflexivity | reflexivity].
Defined.

(** C8 counterexample: the empty string is not JSON text, yet the read
    returns absent, because [if (!json) return;] treats it as missing. *)
Lemma CacheManager_get_malformed_counterexample :
  let st : ls_store := [("@@auth0spajs@@::spa::default::openid", RawText "")] in
  CacheManager_get (mkCacheKey "spa" "default" "openid") 0 0 st = (Ok None, st).
Proof. vm_compute. reflexivity. Qed.

(** ** Claim C6 *)

Definition not_namespaced (kv : string * raw) : bool :=
  negb (startsWith keyPrefix (fst kv)).

Lemma removeItem_absent k st :
  ~ In k (map fst st) -> removeItem k st = st.
Proof.
  unfold removeItem. induction st as [|[k0 v0] st IH]; intros Hn; simpl; [reflexivity|].
  simpl in Hn. destruct (String.eqb_spec k0 k) as [->|]; [tauto|].
  simpl. rewrite IH; [reflexivity|tauto].
Qed.

Lemma clear_loop_app pre post :
  NoDup (map fst (pre ++ post)%list) ->
  clear_loop (length pre) (pre ++ post)%list = (filter not_namespaced pre ++ post)%list.
Proof.
  revert post. induction pre as [|x pre IH] using rev_ind; intros post Hnd;
    [reflexivity|].
  rewrite length_app, Nat.add_1_r, <- app_assoc. simpl.
  rewrite <- app_assoc in Hnd. simpl in Hnd.
  rewrite nth_error_app2 by lia. rewrite Nat.sub_diag. simpl.
  destruct x as [k v]. rewrite filter_app. simpl.
  rewrite map_app in Hnd. simpl in Hnd.
  unfold not_namespaced at 2. simpl.
  destruct (startsWith keyPrefix k) eqn:Hp; simpl.
  - assert (Hn : ~ In k (map fst pre ++ map fst post)) by (eapply NoDup_remove_2; eauto).
    rewrite in_app_iff in Hn.
    replace (removeItem k (pre ++ (k, v) :: post)%list) with (pre ++ post)%list.
    + rewrite app_nil_r. apply IH. rewrite map_app. eapply NoDup_remove_1; eauto.
    + unfold removeItem. rewrite filter_app. simpl. rewrite String.eqb_refl. simpl.
      fold (removeItem k pre). fold (removeItem k post).
      rewrite !removeItem_absent by tauto. reflexivity.
  - rewrite <- app_assoc. simpl. apply (IH ((k, v) :: post)).
    rewrite map_app. simpl. exact Hnd.
Qed.

Lemma getItem_filter k st :
  getItem k (filter not_namespaced st)
  = if startsWith keyPrefix k then None else getItem k st.
Proof.
  induction st as [|[k0 v0] st IH]; simpl; [now destruct (startsWith keyPrefix k)|].
  unfold not_namespaced at 1. simpl.
  destruct (String.eqb_spec k0 k) as [->|Hne].
  - destruct (startsWith keyPrefix k); simpl; [exact IH|].
    now rewrite String.eqb_refl.
  - destruct (startsWith keyPrefix k0); simpl; [exact IH|].
    destruct (String.eqb_spec k0 k); [contradiction|exact IH].
Qed.

(** C6: on a [localStorage] whose keys are distinct, [clear()] leaves
    exactly the records whose key does not start with [keyPrefix], in their
    order and with their values: a namespaced key reads as absent afterwards
    and any other key reads as before. *)
Theorem ls_clear_namespace (st : ls_store) :
  NoDup (ls_keys st) ->
  ls_clear st = filter not_namespaced st
  /\ (forall k, getItem k (ls_clear st)
                = if startsWith keyPrefix k then None else getItem k st).
Proof.
  intros Hnd.
  assert (Hc : ls_clear st = filter not_namespaced st).
  { unfold ls_clear. rewrite <- (app_nil_r st) at 2.
    rewrite clear_loop_app by (rewrite app_nil_r; exact Hnd).
    apply app_nil_r. }
  split; [exact Hc|]. intros k. rewrite Hc. apply getItem_filter.
Qed.

Lemma ls_clear_namespace_witness :
  let st : ls_store :=
    [("theme", RawText "dark");
     ("@@auth0spajs@@::spa::default::openid", RawNull);
     ("@@auth0spajs@@::spa::api::read write", RawNull);
     ("other", RawNull)] in
  ls_clear st = [("theme", RawText "dark"); ("other", RawNull)].
Proof.
  intros st. rewrite (proj1 (ls_clear_namespace st ltac:(vm_compute; repeat constructor; simpl; intuition discriminate))).
  vm_compute. reflexivity.
Defined.

(** ** Claim C7 *)

Section TokenRequestProps.
Variable DEFAULT_TOKEN_PATH : string.
Variable DEFAULT_AUTH0_CLIENT : list (string * string).
Variable JSON_stringify : list (string * string) -> string.
Variable btoa : string -> string.
Variable encodeURIComponent : string -> string.

(** C7: [oauthToken] hands the transport a POST to
    [baseUrl + "/" + tokenPath] ([tokenPath] defaulting to
    [DEFAULT_TOKEN_PATH]) whose body is the URL-form encoding of the
    remaining grant parameters when [useFormData] is set and their JSON text
    otherwise, with the matching [Content-Type], and with an [Auth0-Client]
    header holding the base64 of the JSON of the client metadata exactly when
    [disableAuth0Client] is not set. *)
Theorem oauthToken_request (o : TokenEndpointOptions) :
  let r := oauthToken DEFAULT_TOKEN_PATH DEFAULT_AUTH0_CLIENT JSON_stringify btoa
                      encodeURIComponent o in
  method (g_fetchOptions r) = "POST"
  /\ g_url r = (baseUrl o ++ "/"
                ++ match tokenPath o with Some p => p | None => DEFAULT_TOKEN_PATH end)%string
  /\ req_body (g_fetchOptions r)
     = (if truthy_bool (useFormData o)
        then createQueryParams encodeURIComponent (options o)
        else JSON_stringify (options o))
  /\ header_value "Content-Type" (headers (g_fetchOptions r))
     = Some (if truthy_bool (useFormData o)
             then "application/x-www-form-urlencoded" else "application/json")
  /\ header_value "Auth0-Client" (headers (g_fetchOptions r))
     = (if truthy_bool (disableAuth0Client o) then None
        else Some (btoa (JSON_stringify
                           (match auth0Client o with
                            | Some c => c
                            | None => DEFAULT_AUTH0_CLIENT
                            end)))).
Proof.
  intros r. unfold r, oauthToken. cbn [method g_fetchOptions g_url req_body headers].
  repeat split;
    destruct (truthy_bool (useFormData o)), (truthy_bool (disableAuth0Client o));
    reflexivity.
Qed.

End TokenRequestProps.

(** ** Claim C9 *)

(** C9: over the same enumeration of stored keys, the durable and the
    in-memory backends select the same key with [findExistingCacheKey]. *)
Theorem backends_select_same_key key (st : ls_store) (mc : mem_store) :
  ls_keys st = map fst mc -> ls_select key st = mem_select key mc.
Proof. intros H. unfold ls_select, mem_select. now rewrite H. Qed.

Lemma backends_select_same_key_witness :
  let w := {| body := only_refresh (Some "rt"); expiresAt := 0%Z |} in
  ls_select "@@auth0spajs@@::spa::default::openid"
            [("@@auth0spajs@@::spa::default::openid profile", RawJson w)]
  = mem_select "@@auth0spajs@@::spa::default::openid"
               [("@@auth0spajs@@::spa::default::openid profile", w)].
Proof. intros w. apply backends_select_same_key. reflexivity. Defined.

(** The in-memory [get] reads [cache[undefined]], the property ["undefined"],
    when no key matches; the durable [get] returns absent there. *)
Example mem_get_reads_undefined_property :
  let w := {| body := only_refresh (Some "rt"); expiresAt := 0%Z |} in
  mem_get "@@auth0spajs@@::spa::default::openid" [("undefined", w)] = Ok (Some w)
  /\ ls_get "@@auth0spajs@@::spa::default::openid" [("undefined", RawJson w)] = Ok None.
Proof. vm_compute. split; reflexivity. Qed.

(** * Further properties of the cache *)

(** ** Keys produced by [toKey] always have four parts *)

Lemma split_dc_nonempty t : split_dc t <> [].
Proof.
  destruct t as [|c [|c' t']]; try discriminate.
  rewrite split_dc_cons2.
  destruct (Ascii.eqb c colon && Ascii.eqb c' colon); [discriminate|].
  unfold cons_head. destruct (split_dc (String c' t')); discriminate.
Qed.

Lemma length_cons_head c l : l <> [] -> length (cons_head c l) = length l.
Proof. destruct l; [contradiction|reflexivity]. Qed.

Lemma split_dc_length_cons t : forall c,
  length (split_dc t) <= length (split_dc (String c t)) <= S (length (split_dc t)).
Proof.
  induction t as [|c' t' IH]; intros c; [simpl; lia|].
  rewrite split_dc_cons2.
  destruct (Ascii.eqb c colon && Ascii.eqb c' colon).
  - specialize (IH c'). cbn [List.length]. lia.
  - rewrite length_cons_head by apply split_dc_nonempty. lia.
Qed.

Lemma split_dc_length_app s t :
  length (split_dc t) <= length (split_dc (s ++ t)).
Proof.
  induction s as [|c s IH]; [reflexivity|].
  change (String c s ++ t) with (String c (s ++ t)).
  pose proof (split_dc_length_cons (s ++ t) c). lia.
Qed.

Lemma split_dc_length_sep a t :
  S (length (split_dc t)) <= length (split_dc (a ++ "::" ++ t)).
Proof.
  pose proof (split_dc_length_app a ("::" ++ t)). simpl in H. exact H.
Qed.

Lemma split_toKey_length ck : 4 <= length (split_dc (toKey ck)).
Proof.
  unfold toKey.
  pose proof (split_dc_length_sep (prefix ck)
                (show_str (client_id ck) ++ "::" ++ show_str (audience ck)
                 ++ "::" ++ show_str (scope ck))).
  pose proof (split_dc_length_sep (show_str (client_id ck))
                (show_str (audience ck) ++ "::" ++ show_str (scope ck))).
  pose proof (split_dc_length_sep (show_str (audience ck)) (show_str (scope ck))).
  pose proof (split_dc_nonempty (show_str (scope ck))).
  destruct (split_dc (show_str (scope ck))); [contradiction|]. simpl in *. lia.
Qed.

Lemma fromKey_toKey_scope ck : exists sc, scope (fromKey (toKey ck)) = Some sc.
Proof.
  pose proof (split_toKey_length ck) as Hl. unfold fromKey. simpl.
  destruct (nth_error (split_dc (toKey ck)) 3) as [sc|] eqn:He; [eauto|].
  apply nth_error_None in He. lia.
Qed.

(** X1: for every [CacheKey], the lookup on [toKey(cacheKey)] never throws
    (the [TypeError] of [scope.split] on an undefined requested scope cannot
    arise, since a key written by [toKey] splits into at least four parts);
    hence the in-memory [get] never fails, and [LocalStorageCache.get] fails
    only when the selected key holds text that [JSON.parse] rejects. *)
Theorem lookup_toKey_never_throws ck (st : ls_store) (mc : mem_store) :
  (exists r, ls_select (toKey ck) st = Ok r)
  /\ (exists r, mem_get (toKey ck) mc = Ok r)
  /\ (forall e, ls_get (toKey ck) st = Throw e ->
       e = SyntaxError
       /\ exists k s, ls_select (toKey ck) st = Ok (Some k)
                      /\ getItem k st = Some (RawText s)).
Proof.
  destruct (fromKey_toKey_scope ck) as [sc Hsc].
  unfold ls_get, readJson, mem_get, ls_select.
  destruct (fromKey (toKey ck)) as [p cid aud sc'] eqn:Hf. simpl in Hsc. subst sc'.
  rewrite !findExistingCacheKey_select. simpl.
  split; [eauto|split; [eauto|]].
  intros e. destruct (select_amended _ _) as [[|c r]|]; simpl; try discriminate.
  destruct (getItem (String c r) st) as [[w| |s']|] eqn:Hg; simpl; try discriminate.
  destruct s'; simpl; [discriminate|]. intros H. injection H as <-.
  split; [reflexivity|]. eauto.
Qed.

(** ** Reading and writing [localStorage] *)

Lemma ls_get_of_select key st k w :
  ls_select key st = Ok (Some k) -> getItem k st = Some (RawJson w) ->
  ls_get key st = Ok (Some w).
Proof.
  intros Hs Hk. pose proof (findExistingCacheKey_nonempty _ _ _ Hs) as Hne.
  unfold ls_get, readJson. unfold ls_select in Hs. rewrite Hs. simpl.
  destruct k as [|c r]; [contradiction|]. rewrite Hk. reflexivity.
Qed.

Lemma in_keys_setItem x k v st :
  In x (ls_keys (setItem k v st)) -> x = k \/ In x (ls_keys st).
Proof.
  unfold ls_keys.
  induction st as [|[k0 v0] st IH]; simpl.
  - intros [H|[]]; auto.
  - destruct (String.eqb_spec k0 k); simpl; intros [H|H]; auto.
    destruct (IH H); auto.
Qed.

Lemma ls_keys_setItem k v st :
  ls_keys (setItem k v st)
  = if existsb (fun k' => String.eqb k' k) (ls_keys st) then ls_keys st
    else (ls_keys st ++ [k])%list.
Proof.
  unfold ls_keys.
  induction st as [|[k0 v0] st IH]; simpl; [reflexivity|].
  destruct (String.eqb k0 k); simpl; [reflexivity|].
  rewrite IH. destruct (existsb _ _); reflexivity.
Qed.

Lemma find_app_none {A} (f : A -> bool) l x :
  find f l = None -> f x = true -> find f (l ++ [x])%list = Some x.
Proof.
  induction l as [|a l IH]; simpl; intros H Hx.
  - now rewrite Hx.
  - destruct (f a); [discriminate|auto].
Qed.

(** ** What [CacheManager.get] writes *)

(** X2: [CacheManager.get] over [localStorage] writes only the requested
    key [toKey(cacheKey)]: every other key reads the same afterwards. *)
Theorem CacheManager_get_frame ck adj now (st : ls_store) k :
  k <> toKey ck ->
  getItem k (snd (CacheManager_get ck adj now st)) = getItem k st.
Proof.
  intros Hne. unfold CacheManager_get. cbn [c_get c_set c_remove LocalStorageCache].
  assert (E : String.eqb (toKey ck) k = false)
    by (apply String.eqb_neq; congruence).
  destruct (ls_get (toKey ck) st) as [[w|]|e]; simpl; try reflexivity.
  destruct (_ <? _)%Z; [|reflexivity].
  destruct (truthy_str _); simpl.
  - unfold ls_set. now rewrite getItem_setItem, E.
  - now rewrite getItem_removeItem, E.
Qed.

Lemma CacheManager_get_frame_witness :
  let w := {| body := only_refresh (Some "rt"); expiresAt := 0%Z |} in
  let st : ls_store :=
    [("@@auth0spajs@@::spa::default::openid profile", RawJson w); ("theme", RawNull)] in
  getItem "@@auth0spajs@@::spa::default::openid profile"
          (snd (CacheManager_get (mkCacheKey "spa" "default" "openid") 0%Z 5000%Z st))
  = Some (RawJson w).
Proof.
  intros w st.
  rewrite CacheManager_get_frame by (vm_compute; discriminate). reflexivity.
Defined.

(** X3: when [get] finds an expired entry under the requested key itself,
    that key afterwards holds exactly [{refresh_token}] with the same
    [expiresAt] when the refresh token is a non-empty string, and is
    removed otherwise. *)
Theorem CacheManager_get_expired_exact_key ck adj now (st : ls_store) w :
  ls_select (toKey ck) st = Ok (Some (toKey ck)) ->
  getItem (toKey ck) st = Some (RawJson w) ->
  (expiresAt w - adj < now / 1000)%Z ->
  getItem (toKey ck) (snd (CacheManager_get ck adj now st))
  = if truthy_str (p_refresh_token (body w))
    then Some (RawJson {| body := only_refresh (p_refresh_token (body w));
                          expiresAt := expiresAt w |})
    else None.
Proof.
  intros Hs Hk Hx. unfold CacheManager_get. cbn [c_get c_set c_remove LocalStorageCache].
  rewrite (ls_get_of_select _ _ _ _ Hs Hk). simpl.
  apply Z.ltb_lt in Hx. rewrite Hx.
  destruct (truthy_str _); simpl.
  - unfold ls_set. now rewrite getItem_setItem, String.eqb_refl.
  - now rewrite getItem_removeItem, String.eqb_refl.
Qed.

Lemma CacheManager_get_expired_exact_key_witness :
  let b := {| p_id_token := Some "id"; p_access_token := Some "at";
              p_expires_in := Some 3600%Z; p_decodedToken := None;
              p_audience := Some "default"; p_scope := Some "openid";
              p_client_id := Some "spa"; p_refresh_token := Some "rt" |} in
  let w := {| body := b; expiresAt := 100%Z |} in
  let st : ls_store := [("@@auth0spajs@@::spa::default::openid", RawJson w)] in
  getItem (toKey (mkCacheKey "spa" "default" "openid"))
          (snd (CacheManager_get (mkCacheKey "spa" "default" "openid") 0%Z 200000%Z st))
  = Some (RawJson {| body := only_refresh (Some "rt"); expiresAt := 100%Z |}).
Proof.
  intros b w st.
  rewrite (CacheManager_get_expired_exact_key (mkCacheKey "spa" "default" "openid")
             0%Z 200000%Z st w); [reflexivity | vm_compute; reflexivity
                                  | reflexivity | vm_compute; reflexivity].
Defined.

(** ** [clear] and the namespace *)

(** The first piece of [key.split('::')] is a prefix of [key]. *)
Lemma split_dc_head_prefix k :
  exists h t, split_dc k = h :: t /\ String.prefix h k = true.
Proof.
  induction k as [|c r IH].
  - exists ""%string, []. split; reflexivity.
  - destruct r as [|c' r'].
    + exists (String c ""), []. split; [reflexivity|]. simpl.
      destruct (ascii_dec c c); [reflexivity|congruence].
    + rewrite split_dc_cons2. destruct (_ && _).
      * exists ""%string, (split_dc r'). split; reflexivity.
      * destruct IH as [h [t [Hs Hp]]]. rewrite Hs.
        exists (String c h), t. split; [reflexivity|]. simpl.
        destruct (ascii_dec c c); [exact Hp|congruence].
Qed.

Lemma prefix_fromKey k :
  String.eqb (prefix (fromKey k)) keyPrefix = true -> startsWith keyPrefix k = true.
Proof.
  unfold fromKey, new_CacheKey. cbv zeta. cbn [prefix].
  destruct (split_dc_head_prefix k) as [h [t [Hs Hp]]]. rewrite Hs. simpl.
  intros E. apply String.eqb_eq in E. subst h. exact Hp.
Qed.

(** A key the lookup accepts starts with [keyPrefix]. *)
Lemma amended_pred_namespaced ck k :
  amended_pred ck k = true -> startsWith keyPrefix k = true.
Proof.
  unfold amended_pred. cbv zeta. rewrite !andb_true_iff.
  intros [[[[H _] _] _] _]. now apply prefix_fromKey.
Qed.

Lemma find_all_false {A} (f : A -> bool) l :
  (forall x, In x l -> f x = false) -> find f l = None.
Proof.
  induction l as [|a l IH]; simpl; intros H; [reflexivity|].
  rewrite (H a (or_introl eq_refl)). apply IH. auto.
Qed.

Lemma in_keys_filter (f : string * raw -> bool) x st :
  In x (ls_keys (filter f st)) -> In x (ls_keys st).
Proof.
  unfold ls_keys. rewrite !in_map_iff. intros [kv [<- Hin]].
  apply filter_In in Hin. exists kv. tauto.
Qed.

Lemma NoDup_setItem k v st :
  NoDup (ls_keys st) -> NoDup (ls_keys (setItem k v st)).
Proof.
  induction st as [|[k0 v0] st IH]; simpl; intros H.
  - constructor; [intros []|constructor].
  - inversion H as [|? ? Hn Hnd]; subst.
    destruct (String.eqb_spec k0 k); simpl; constructor; auto.
    intros Hin. destruct (in_keys_setItem _ _ _ _ Hin); [congruence|contradiction].
Qed.

Lemma NoDup_filter_keys (f : string * raw -> bool) st :
  NoDup (ls_keys st) -> NoDup (ls_keys (filter f st)).
Proof.
  induction st as [|[k0 v0] st IH]; simpl; intros H; [constructor|].
  inversion H as [|? ? Hn Hnd]; subst.
  destruct (f (k0, v0)); simpl; [constructor|]; auto.
  intros Hin. exact (Hn (in_keys_filter f k0 st Hin)).
Qed.

Lemma ls_clear_filter st :
  NoDup (ls_keys st) -> ls_clear st = filter not_namespaced st.
Proof.
  intros Hnd. unfold ls_clear. rewrite <- (app_nil_r st) at 2.
  rewrite clear_loop_app by (rewrite app_nil_r; exact Hnd).
  apply app_nil_r.
Qed.

Lemma filter_filter_same {A} (f : A -> bool) l : filter f (filter f l) = filter f l.
Proof.
  induction l as [|a l IH]; simpl; [reflexivity|].
  destruct (f a) eqn:E; simpl; [rewrite E|]; now rewrite IH.
Qed.

Lemma ls_get_none key st : ls_select key st = Ok None -> ls_get key st = Ok None.
Proof. unfold ls_get, readJson, ls_select. intros H. now rewrite H. Qed.

(** X5: on a [localStorage] with distinct keys, after [CacheManager.clear()]
    every [get] finds nothing and writes nothing, and clearing again
    changes nothing. *)
Theorem CacheManager_clear_then_get (st : ls_store) ck adj now :
  NoDup (ls_keys st) ->
  CacheManager_get ck adj now (CacheManager_clear st) = (Ok None, CacheManager_clear st)
  /\ CacheManager_clear (CacheManager_clear st) = CacheManager_clear st.
Proof.
  intros Hnd. unfold CacheManager_clear, CacheManager_get.
  cbn [c_get c_clear LocalStorageCache]. cbv zeta.
  rewrite (ls_clear_filter st Hnd). split.
  - rewrite ls_get_none; [reflexivity|].
    destruct (fromKey_toKey_scope ck) as [sc Hsc]. unfold ls_select.
    destruct (fromKey (toKey ck)) as [p cid aud sc'] eqn:Hf.
    simpl in Hsc. subst sc'. rewrite findExistingCacheKey_select.
    f_equal. apply find_all_false. intros k Hin.
    destruct (amended_pred _ k) eqn:Ha; [|reflexivity].
    apply amended_pred_namespaced in Ha.
    unfold ls_keys in Hin. apply in_map_iff in Hin.
    destruct Hin as [[k' v] [Hk Hin]]. simpl in Hk. subst k'.
    apply filter_In in Hin. destruct Hin as [_ Hn].
    unfold not_namespaced in Hn. simpl in Hn. rewrite Ha in Hn. discriminate.
  - rewrite ls_clear_filter by (now apply NoDup_filter_keys).
    apply filter_filter_same.
Qed.

Lemma CacheManager_clear_then_get_witness :
  let w := {| body := only_refresh (Some "rt"); expiresAt := 0%Z |} in
  let st : ls_store :=
    [("@@auth0spajs@@::spa::default::openid", RawJson w); ("theme", RawText "dark")] in
  CacheManager_get (mkCacheKey "spa" "default" "openid") 0%Z 0%Z (CacheManager_clear st)
  = (Ok None, CacheManager_clear st)
  /\ CacheManager_clear (CacheManager_clear st) = CacheManager_clear st.
Proof.
  intros w st. apply CacheManager_clear_then_get.
  vm_compute. repeat constructor; simpl; intuition discriminate.
Defined.

(** ** [set] followed by [get] *)

(** When no stored key matches a request, adding the key of an entry whose
    client, audience and scopes cover the request makes that key the one
    selected. *)
Lemma select_after_add cid aud sc q keys :
  has_dc cid = false -> ends_colon cid = false ->
  has_dc aud = false -> ends_colon aud = false ->
  has_dc sc = false -> has_dc q = false -> truthy_str (Some sc) = true ->
  forallb (fun t => includes t (split_char space sc)) (split_char space q) = true ->
  findExistingCacheKey (fromKey (toKey (mkCacheKey cid aud q))) keys = Ok None ->
  ~ In (toKey (mkCacheKey cid aud sc)) keys
  /\ findExistingCacheKey (fromKey (toKey (mkCacheKey cid aud q)))
                          (keys ++ [toKey (mkCacheKey cid aud sc)])%list
     = Ok (Some (toKey (mkCacheKey cid aud sc))).
Proof.
  intros Hc1 Hc2 Ha1 Ha2 Hs Hq Ht Hall.
  assert (Hf : fromKey (toKey (mkCacheKey cid aud q))
               = {| prefix := keyPrefix; client_id := Some cid;
                    audience := Some aud; scope := Some q |})
    by (rewrite fromKey_toKey by (simpl; (reflexivity || assumption)); reflexivity).
  rewrite Hf.
  rewrite !findExistingCacheKey_select. unfold select_amended.
  assert (Hp : amended_pred {| prefix := keyPrefix; client_id := Some cid;
                               audience := Some aud; scope := Some q |}
                            (toKey (mkCacheKey cid aud sc)) = true).
  { rewrite amended_pred_toKey by assumption. cbn [client_id audience scope show_str].
    unfold str_eq. now rewrite !String.eqb_refl, Ht, Hall. }
  intros H. injection H as H. split.
  - intros Hin. pose proof (find_none _ _ H _ Hin) as Hfalse. congruence.
  - now rewrite (find_app_none _ _ _ H Hp).
Qed.

(** X6: [CacheManager.set] followed by [CacheManager.get] over
    [localStorage] returns the entry just stored, unchanged, for any request
    with the entry's client and audience whose scopes are among the entry's,
    provided no other stored key matches that request and the entry is not
    yet expired; the [get] writes nothing. *)
Theorem CacheManager_set_then_get entry now now' adj q (st : ls_store) :
  has_dc (e_client_id entry) = false -> ends_colon (e_client_id entry) = false ->
  has_dc (e_audience entry) = false -> ends_colon (e_audience entry) = false ->
  has_dc (e_scope entry) = false -> has_dc q = false ->
  truthy_str (Some (e_scope entry)) = true ->
  forallb (fun t => includes t (split_char space (e_scope entry)))
          (split_char space q) = true ->
  ls_select (toKey (mkCacheKey (e_client_id entry) (e_audience entry) q)) st = Ok None ->
  (now' / 1000 <= expiresAt (wrapCacheEntry entry now) - adj)%Z ->
  CacheManager_get (mkCacheKey (e_client_id entry) (e_audience entry) q) adj now'
                   (CacheManager_set entry now st)
  = (Ok (Some (to_partial entry)), CacheManager_set entry now st).
Proof.
  intros Hc1 Hc2 Ha1 Ha2 Hs Hq Ht Hall Hsel Hexp.
  remember (CacheManager_set entry now st) as st1 eqn:Hst1.
  unfold CacheManager_set in Hst1. cbn [c_set LocalStorageCache] in Hst1.
  cbv zeta in Hst1. unfold ls_set in Hst1.
  unfold ls_select in Hsel.
  destruct (select_after_add _ _ _ q (ls_keys st) Hc1 Hc2 Ha1 Ha2 Hs Hq Ht Hall Hsel)
    as [Hn Hsel'].
  assert (Hg : ls_get (toKey (mkCacheKey (e_client_id entry) (e_audience entry) q)) st1
               = Ok (Some (wrapCacheEntry entry now))).
  { apply (ls_get_of_select _ _ (toKey (mkCacheKey (e_client_id entry)
                                                   (e_audience entry) (e_scope entry)))).
    - unfold ls_select. rewrite Hst1, ls_keys_setItem.
      destruct (existsb _ _) eqn:He; [|exact Hsel'].
      apply existsb_exists in He. destruct He as [x [Hx Ex]].
      apply String.eqb_eq in Ex. subst x. contradiction.
    - rewrite Hst1, getItem_setItem, String.eqb_refl. reflexivity. }
  unfold CacheManager_get. cbn [c_get LocalStorageCache]. cbv zeta.
  rewrite Hg. apply Z.ltb_ge in Hexp. rewrite Hexp. reflexivity.
Qed.

Lemma CacheManager_set_then_get_witness :
  let entry := {| id_token := "id"; access_token := "at"; expires_in := 86400%Z;
                  decodedToken := {| claims := {| exp := 2000000%Z; other_claims := [] |};
                                     user := [] |};
                  e_audience := "default"; e_scope := "openid profile email";
                  e_client_id := "spa"; refresh_token := Some "rt" |} in
  let st : ls_store :=
    [("@@auth0spajs@@::spa::api::openid", RawNull); ("theme", RawText "dark")] in
  CacheManager_get (mkCacheKey "spa" "default" "email openid") 60%Z 1500000%Z
                   (CacheManager_set entry 1000000%Z st)
  = (Ok (Some (to_partial entry)), CacheManager_set entry 1000000%Z st).
Proof.
  intros entry st.
  apply (CacheManager_set_then_get entry 1000000%Z 1500000%Z 60%Z "email openid" st);
    vm_compute; first [reflexivity | discriminate].
Defined.

Lemma mem_keys_set_new k w mc :
  ~ In k (map fst mc) -> map fst (mem_set k w mc) = (map fst mc ++ [k])%list.
Proof.
  induction mc as [|[k0 v0] mc IH]; simpl; intros Hn; [reflexivity|].
  destruct (String.eqb_spec k0 k); [tauto|]. simpl. rewrite IH; tauto.
Qed.

Lemma mem_lookup_set k w mc : mem_lookup k (mem_set k w mc) = Some w.
Proof.
  induction mc as [|[k0 v0] mc IH]; simpl.
  - now rewrite String.eqb_refl.
  - destruct (String.eqb k0 k) eqn:E; simpl; rewrite ?E; auto.
Qed.

(** X7: in the in-memory cache, writing an entry under the key of a
    client, audience and scope makes a later [get] for a request with the
    same client and audience and a subset of the scopes return exactly that
    entry, provided no stored key matched the request before. *)
Theorem mem_set_then_get cid aud sc q w mc :
  has_dc cid = false -> ends_colon cid = false ->
  has_dc aud = false -> ends_colon aud = false ->
  has_dc sc = false -> has_dc q = false -> truthy_str (Some sc) = true ->
  forallb (fun t => includes t (split_char space sc)) (split_char space q) = true ->
  mem_select (toKey (mkCacheKey cid aud q)) mc = Ok None ->
  mem_get (toKey (mkCacheKey cid aud q)) (mem_set (toKey (mkCacheKey cid aud sc)) w mc)
  = Ok (Some w).
Proof.
  intros Hc1 Hc2 Ha1 Ha2 Hs Hq Ht Hall Hsel. unfold mem_select in Hsel.
  destruct (select_after_add _ _ _ q _ Hc1 Hc2 Ha1 Ha2 Hs Hq Ht Hall Hsel)
    as [Hn Hsel'].
  unfold mem_get. rewrite (mem_keys_set_new _ _ _ Hn), Hsel'. simpl.
  now rewrite mem_lookup_set.
Qed.

Lemma mem_set_then_get_witness :
  let w := {| body := only_refresh (Some "rt"); expiresAt := 10%Z |} in
  let mc : mem_store :=
    [("@@auth0spajs@@::spa::api::openid", w)] in
  mem_get (toKey (mkCacheKey "spa" "default" "email"))
          (mem_set (toKey (mkCacheKey "spa" "default" "openid email")) w mc)
  = Ok (Some w).
Proof.
  intros w mc.
  apply (mem_set_then_get "spa" "default" "openid email" "email" w mc);
    vm_compute; reflexivity.
Defined.

Lemma prefix_app s t : String.prefix s (s ++ t) = true.
Proof.
  induction s as [|c s IH]; simpl; [now destruct t|].
  destruct (ascii_dec c c); [exact IH|congruence].
Qed.

Lemma mem_lookup_absent k mc : ~ In k (map fst mc) -> mem_lookup k mc = None.
Proof.
  induction mc as [|[k0 v0] mc IH]; simpl; intros Hn; [reflexivity|].
  destruct (String.eqb_spec k0 k); [tauto|]. apply IH. tauto.
Qed.

Lemma in_mem_set x k w mc : In x (map fst (mem_set k w mc)) -> x = k \/ In x (map fst mc).
Proof.
  induction mc as [|[k0 v0] mc IH]; simpl.
  - intros [H|[]]; auto.
  - destruct (String.eqb_spec k0 k); simpl; intros [H|H]; auto.
    destruct (IH H); auto.
Qed.

(** X8: the in-memory cache only ever holds namespaced keys when written
    through [CacheManager]'s keys, [remove] and [clear]; on such a cache a
    [get] whose request matches no key returns absent, although it reads
    the property [cache[undefined]]. *)
Theorem mem_namespaced_no_match :
  (forall cid aud sc w mc,
      Forall (fun k => startsWith keyPrefix k = true) (map fst mc) ->
      Forall (fun k => startsWith keyPrefix k = true)
             (map fst (mem_set (toKey (mkCacheKey cid aud sc)) w mc)))
  /\ (forall k mc,
      Forall (fun k => startsWith keyPrefix k = true) (map fst mc) ->
      Forall (fun k => startsWith keyPrefix k = true) (map fst (mem_remove k mc)))
  /\ (forall mc, Forall (fun k => startsWith keyPrefix k = true) (map fst (mem_clear mc)))
  /\ (forall key mc,
      Forall (fun k => startsWith keyPrefix k = true) (map fst mc) ->
      mem_select key mc = Ok None -> mem_get key mc = Ok None).
Proof.
  split; [|split; [|split]].
  - intros cid aud sc w mc H. apply Forall_forall. intros x Hx.
    destruct (in_mem_set _ _ _ _ Hx) as [->|Hin].
    + apply prefix_app.
    + exact (proj1 (Forall_forall _ _) H x Hin).
  - intros k mc H. apply Forall_forall. intros x Hx.
    apply in_map_iff in Hx. destruct Hx as [kv [<- Hin]].
    unfold mem_remove in Hin. apply filter_In in Hin.
    apply (proj1 (Forall_forall _ _) H). apply in_map. tauto.
  - intros mc. constructor.
  - intros key mc H Hsel. unfold mem_get. unfold mem_select in Hsel.
    rewrite Hsel. simpl. rewrite mem_lookup_absent; [reflexivity|].
    intros Hin. pose proof (proj1 (Forall_forall _ _) H _ Hin) as Hp.
    discriminate Hp.
Qed.

Lemma mem_namespaced_no_match_witness :
  let w := {| body := only_refresh (Some "rt"); expiresAt := 10%Z |} in
  let mc : mem_store := [("@@auth0spajs@@::spa::api::openid", w)] in
  mem_get (toKey (mkCacheKey "spa" "default" "openid")) mc = Ok None.
Proof.
  intros w mc. apply (proj2 (proj2 (proj2 mem_namespaced_no_match))).
  - repeat constructor.
  - vm_compute. reflexivity.
Defined.
